(** * CZlib: the C shim between zlib and its foreign callers

    A shallow embedding of [Sources/CZlib/include/CNIOExtrasZlib.h]:

<<
    #include <zlib.h>

    static inline int CZlib_inflateInit2(z_streamp strm, int windowBits) {
        return inflateInit2(strm, windowBits);
    }

    static inline Bytef *CZlib_voidPtr_to_BytefPtr(void *in) {
        return (Bytef * )in;
    }
>>

    C functions are computations over an explicit [world] (memory, live
    allocations, I/O done so far) that may get stuck on undefined
    behaviour.  zlib itself is not part of the repository: everything the
    header takes from [<zlib.h>] is an interface, the class [Zlib], and the
    theorems about the shim alone hold for every implementation of it.
    Where a statement turns on what zlib does with its arguments, zlib's
    routine is modelled in the module [Inflate]. *)

From Stdlib Require Import ZArith Lia.
From Stdlib.Strings Require Import Ascii Byte String.
From stdpp Require Import base option list gmap.

Local Open Scope Z_scope.

(** ** C data *)

Module CTypes.

(** The pointee types the header mentions: [void], zlib's [Bytef]
    (an unsigned 8-bit byte) and zlib's [z_stream]. *)
Inductive pointee : Set := void | Bytef | z_stream.

(** A pointer is an address tagged with the type it points to. *)
Record ptr (t : pointee) : Set := Ptr { address : Z }.
Arguments Ptr t address : clear implicits.
Arguments address {t} p.

(** [z_streamp] is zlib's name for [z_stream *]. *)
Definition z_streamp : Set := ptr z_stream.

Definition NULL {t : pointee} : ptr t := Ptr t 0.

(** The C cast [(T * )p] between object pointer types. *)
Definition ptr_cast {s : pointee} (t : pointee) (p : ptr s) : ptr t :=
  Ptr t (address p).

(** The conversion [(int)x] of an integer of another type to the
    32-bit two's-complement [int]. *)
Definition int_cast (x : Z) : Z := (x + 2 ^ 31) mod 2 ^ 32 - 2 ^ 31.

End CTypes.
Export CTypes.

(** ** The world a C call runs in *)

Record world : Type := World {
  memory : gmap Z byte;      (* the cells that exist, by address *)
  allocations : gset Z;      (* bases of the live heap blocks *)
  io : list byte             (* bytes written to the outside so far *)
}.

Definition set_memory (f : gmap Z byte → gmap Z byte) (w : world) : world :=
  {| memory := f (memory w); allocations := allocations w; io := io w |}.

(** A C computation: from a world to a value and a new world, or stuck
    ([None]) on undefined behaviour. *)
Definition C (A : Type) : Type := world → option (A * world).

(** [return] and sequencing, through stdpp's monad notations
    ([x ← m; k] and [m;; k]). *)
#[global] Instance C_ret : MRet C := λ A (a : A) w, Some (a, w).

#[global] Instance C_bind : MBind C := λ A B (k : A → C B) (m : C A) w,
  match m w with
  | Some (a, w') => k a w'
  | None => None
  end.

(** ** What [#include <zlib.h>] provides *)

(** Modelled from the spec: the status codes of [zlib.h], which the
    repository includes but does not contain.  Zero is success; the
    failures the spec names are stream (invalid argument), memory and
    version-mismatch errors. *)
Definition Z_OK : Z := 0.
Definition Z_STREAM_ERROR : Z := -2.
Definition Z_MEM_ERROR : Z := -4.
Definition Z_VERSION_ERROR : Z := -6.

(** The rest of the interface: the two compile-time constants of the
    header and the routine the binary is linked against. *)
Class Zlib : Type := {
  ZLIB_VERSION : string;
  sizeof_z_stream : Z;
  inflateInit2_ : z_streamp → Z → string → Z → C Z
}.

Section Shim.
Context `{Zlib}.

(** Modelled from the spec: the macro [inflateInit2] of [zlib.h], which
    supplies the header's version string and the size of [z_stream]
    next to the caller's two arguments. *)
Definition inflateInit2 (strm : z_streamp) (windowBits : Z) : C Z :=
  inflateInit2_ strm windowBits ZLIB_VERSION (int_cast sizeof_z_stream).

(** [static inline int CZlib_inflateInit2(z_streamp strm, int windowBits)]

    The body does no arithmetic on [windowBits] and no conversion of the
    [int] it returns, so both are plain [Z]: what holds for every [Z]
    holds for every [int]. *)
Definition CZlib_inflateInit2 (strm : z_streamp) (windowBits : Z) : C Z :=
  r ← inflateInit2 strm windowBits;
  mret r.

(** [static inline Bytef *CZlib_voidPtr_to_BytefPtr(void *in)] *)
Definition CZlib_voidPtr_to_BytefPtr (in_ : ptr void) : C (ptr Bytef) :=
  mret (ptr_cast Bytef in_).

End Shim.

(** ** How the header declares its names *)

Module Linkage.

(** Storage-class specifier of a file-scope function definition. *)
Inductive storage_class : Set := Static | Extern | Unspecified.

Inductive linkage : Set := Internal | External.

(** A name the header brings into scope: a function definition with its
    specifiers, or a preprocessor macro. *)
Inductive declaration : Set :=
| Function (storage : storage_class) (is_inline : bool)
| Macro.

(** C11 6.2.2: [static] at file scope gives internal linkage, anything
    else external linkage.  A macro is gone after preprocessing and has
    no linkage at all. *)
Definition linkage_of (d : declaration) : option linkage :=
  match d with
  | Function Static _ => Some Internal
  | Function _ _ => Some External
  | Macro => None
  end.

(** A function designator converts to a pointer to the function
    (C11 6.3.2.1); a function-like macro only expands. *)
Definition has_address (d : declaration) : bool :=
  match d with
  | Function _ _ => true
  | Macro => false
  end.

(** Whether the definition yields a symbol that other objects can link
    against: external linkage and an external definition, which a plain
    [inline] definition is not (C11 6.7.4). *)
Definition exported (d : declaration) : bool :=
  match d with
  | Function Static _ => false
  | Function Extern _ => true
  | Function Unspecified is_inline => negb is_inline
  | Macro => false
  end.

(** [static inline int CZlib_inflateInit2(z_streamp strm, int windowBits)] *)
Definition CZlib_inflateInit2_decl : declaration := Function Static true.

(** Modelled from the spec: [inflateInit2] as [zlib.h] declares it in
    the builds the shim exists for, a preprocessor macro. *)
Definition inflateInit2_decl : declaration := Macro.

End Linkage.

(** ** Memory access through pointers *)

(** [p[i] = b] through a byte pointer; undefined where no cell exists. *)
Definition store_byte (p : ptr Bytef) (i : Z) (b : byte) : C unit := λ w,
  match memory w !! (address p + i) with
  | Some _ => Some (tt, set_memory <[address p + i := b]> w)
  | None => None
  end.

(** Reading the byte at offset [i] of an untyped reference, the way
    [memcpy] and [memcmp] read their [void *] arguments. *)
Definition load_byte (p : ptr void) (i : Z) : C byte := λ w,
  match memory w !! (address p + i) with
  | Some b => Some (b, w)
  | None => None
  end.

Fixpoint write_bytes (p : ptr Bytef) (i : Z) (bs : list byte) : C unit :=
  match bs with
  | [] => mret tt
  | b :: bs' => store_byte p i b;; write_bytes p (i + 1) bs'
  end.

Fixpoint read_bytes (p : ptr void) (i : Z) (n : nat) : C (list byte) :=
  match n with
  | O => mret []
  | S n' => b ← load_byte p i; bs ← read_bytes p (i + 1) n'; mret (b :: bs)
  end.

(** What a run of byte stores leaves in memory. *)
Fixpoint poke (a : Z) (bs : list byte) (m : gmap Z byte) : gmap Z byte :=
  match bs with
  | [] => m
  | b :: bs' => poke (a + 1) bs' (<[a := b]> m)
  end.

(** The caller's buffer: [len] cells starting at [b] exist. *)
Definition buffer (b : ptr void) (len : Z) (w : world) : Prop :=
  Forall (λ i, is_Some (memory w !! (address b + i))) (seqZ 0 len).

#[global] Instance buffer_dec b len w : Decision (buffer b len w) :=
  Forall_dec _ _.

(** ** What callers do with the two entry points *)

(** Reinterpret a buffer, write through the byte pointer, read back
    through the untyped reference. *)
Definition write_then_read (b : ptr void) (bs : list byte) : C (list byte) :=
  p ← CZlib_voidPtr_to_BytefPtr b;
  write_bytes p 0 bs;;
  read_bytes b 0 (length bs).

(** Initialise the same handle twice in a row, keeping both statuses. *)
Definition init_twice (init : z_streamp → Z → C Z)
    (strm : z_streamp) (w1 w2 : Z) : C (Z * Z) :=
  r1 ← init strm w1;
  r2 ← init strm w2;
  mret (r1, r2).

(** Reinterpret a buffer and write from offset [i] on, the way a caller
    fills the part of a buffer it has not yet handed to zlib. *)
Definition write_at (b : ptr void) (i : Z) (bs : list byte) : C unit :=
  p ← CZlib_voidPtr_to_BytefPtr b;
  write_bytes p i bs.

(** A caller's run of initialisations, on any handles, in order, keeping
    every status. *)
Fixpoint init_each (init : z_streamp → Z → C Z)
    (calls : list (z_streamp * Z)) : C (list Z) :=
  match calls with
  | [] => mret []
  | (strm, windowBits) :: rest =>
      r ← init strm windowBits;
      rs ← init_each init rest;
      mret (r :: rs)
  end.

(** ** The library at run time *)

(** A zlib binary: which header constants it accepts, and how it sets up
    a stream once it has accepted them. *)
Record runtime : Type := Runtime {
  compatible : string → Z → bool;
  initialise : z_streamp → Z → C Z
}.

(** Modelled from the spec: zlib's [inflateInit2_], which lives in the
    library and not in this repository.  The spec names version mismatch
    as one of the failures zlib classifies and reports by status code: the
    routine first judges the version string and structure size it is
    handed, and only initialises the stream when they suit it. *)
Definition runtime_inflateInit2_ (R : runtime) (strm : z_streamp)
    (windowBits : Z) (version : string) (stream_size : Z) : C Z :=
  if compatible R version stream_size
  then initialise R strm windowBits
  else mret Z_VERSION_ERROR.

(** A shim compiled against a header with the given constants and run
    against the library [R]. *)
Definition linked (version : string) (size : Z) (R : runtime) : Zlib :=
  {| ZLIB_VERSION := version;
     sizeof_z_stream := size;
     inflateInit2_ := runtime_inflateInit2_ R |}.

(** ** A stand-in library for running the definitions *)

Module Fixture.

(** Not zlib: a routine of the same shape, small enough to evaluate.
    It accepts a version string starting with ["1"] and a 112-byte
    stream structure, rejects a null handle and a window outside 8..15
    (after dropping the sign or the +16/+32 format offset), and on
    success records the window in the handle's first byte and takes one
    heap block for its private state. *)
Definition version_suits (version : string) (stream_size : Z) : bool :=
  String.eqb (substring 0 1 version) "1" && (stream_size =? 112).

Definition window_suits (windowBits : Z) : bool :=
  let bits := if windowBits <? 0 then - windowBits
              else if windowBits <? 48 then Z.land windowBits 15
              else windowBits in
  (-15 <=? windowBits) && (8 <=? bits) && (bits <=? 15).

Definition low_byte (x : Z) : byte :=
  default "000"%byte (Byte.of_N (Z.to_N (x mod 256))).

Definition next_block (blocks : gset Z) : Z :=
  set_fold Z.max 65536 blocks + 4096.

Definition init (strm : z_streamp) (windowBits : Z) : C Z := λ w,
  if decide (address strm = 0) then Some (Z_STREAM_ERROR, w)
  else match memory w !! address strm with
       | None => None
       | Some _ =>
           if window_suits windowBits
           then Some (Z_OK,
                      {| memory := <[address strm := low_byte windowBits]> (memory w);
                         allocations := {[next_block (allocations w)]} ∪ allocations w;
                         io := io w |})
           else Some (Z_STREAM_ERROR, w)
       end.

Definition library : runtime :=
  {| compatible := version_suits; initialise := init |}.

(** Built against a matching header ... *)
Definition zlib : Zlib := linked "1.2.11" 112 library.

(** ... and against one the library refuses. *)
Definition stale_zlib : Zlib := linked "0.9" 56 library.

(** A world with a 112-byte handle at 4096 and a 4-byte buffer at 8192. *)
Definition cells (base len : Z) : gmap Z byte :=
  list_to_map ((λ i, (base + i, "000"%byte)) <$> seqZ 0 len).

Definition w0 : world :=
  {| memory := cells 4096 112 ∪ cells 8192 4; allocations := ∅; io := [] |}.

Definition handle : z_streamp := Ptr z_stream 4096.
Definition buf : ptr void := Ptr void 8192.

End Fixture.

(** ** zlib's side of the call *)

Module Inflate.

(** What the routine does to the handle and to the heap.  These steps
    depend on the layout of [z_stream] and on the allocator in use, so
    they are taken as given; the order in which the routine runs them and
    the statuses it answers with are written out below. *)
Record platform : Type := Platform {
  (* strm->msg = Z_NULL; the default allocator where the caller set none;
     state = ZALLOC(strm, 1, sizeof(struct inflate_state)); with a block
     in hand, strm->state = state and the first fields of the state.
     The value is the block's address, 0 when the allocator gave none. *)
  open_state : z_streamp → C Z;
  (* ZFREE(strm, state); strm->state = Z_NULL *)
  drop_state : z_streamp → Z → C unit;
  (* state->wrap = wrap; state->wbits = windowBits; inflateReset(strm) *)
  reset_state : z_streamp → Z → Z → C unit
}.

(** The last step of the check: a window size other than 0 must lie in
    8..15. *)
Definition checked (wrap bits : Z) : option (Z * Z) :=
  if negb (bits =? 0) && ((bits <? 8) || (15 <? bits))
  then None
  else Some (wrap, bits).

(** Modelled from the spec: the window-bit check of zlib, which lives in
    the library and not in this repository.  The spec names the families
    of values (a window size, negated for the raw format, offset by 16 or
    32 for gzip or automatic detection) and leaves the range to zlib; the
    range is the one of zlib's [inflateReset2]: sizes 8 to 15, and 0 for
    the size recorded in the stream's own header.  The result is the wrap
    mode and the window size, or [None] where zlib answers
    [Z_STREAM_ERROR]. *)
Definition window_bits (windowBits : Z) : option (Z * Z) :=
  if windowBits <? 0
  then if windowBits <? -15 then None else checked 0 (- windowBits)
  else checked (Z.shiftr windowBits 4 + 5)
               (if windowBits <? 48 then Z.land windowBits 15 else windowBits).

Definition first_char (s : string) : ascii :=
  match s with
  | EmptyString => Ascii.zero
  | String c _ => c
  end.

(** Modelled from the spec: the version check of zlib's [inflateInit2_].
    A library built from a header with constants [rt_version] and
    [rt_size] accepts a version string that starts as its own does and a
    structure size equal to its own. *)
Definition version_check (rt_version : string) (rt_size : Z)
    (version : string) (stream_size : Z) : bool :=
  Ascii.eqb (first_char version) (first_char rt_version)
  && (stream_size =? int_cast rt_size).

(** Modelled from the spec: what zlib's [inflateInit2_] does once the
    version check has passed.  A null handle is a stream error; no memory
    for the state is a memory error; a refused window gives the state
    back and is a stream error; otherwise the stream is reset for the
    window and the answer is [Z_OK]. *)
Definition init (P : platform) (strm : z_streamp) (windowBits : Z) : C Z :=
  if address strm =? 0 then mret Z_STREAM_ERROR
  else
    state ← open_state P strm;
    if state =? 0 then mret Z_MEM_ERROR
    else match window_bits windowBits with
         | Some (wrap, bits) => reset_state P strm wrap bits;; mret Z_OK
         | None => drop_state P strm state;; mret Z_STREAM_ERROR
         end.

Definition library (P : platform) (rt_version : string) (rt_size : Z) : runtime :=
  {| compatible := version_check rt_version rt_size; initialise := init P |}.

End Inflate.

(** The spec's wording of what a call may change: the cells of the handle
    ([size] bytes from [strm]) and nothing else. *)
Definition only_handle_mutated (strm : z_streamp) (size : Z) (w w' : world) : Prop :=
  (∀ a, a < address strm ∨ address strm + size ≤ a →
        memory w' !! a = memory w !! a) ∧
  allocations w' = allocations w ∧
  io w' = io w.

(** ** A stand-in platform for running zlib's side *)

Module Rig.

(** Not a real platform: the handle must exist, the state is one fresh
    heap block, and the window size is kept in the handle's first byte. *)
Definition open_state (strm : z_streamp) : C Z := λ w,
  match memory w !! address strm with
  | None => None
  | Some _ =>
      let a := Fixture.next_block (allocations w) in
      Some (a, {| memory := <[a := "000"%byte]> (memory w);
                  allocations := {[a]} ∪ allocations w;
                  io := io w |})
  end.

Definition drop_state (strm : z_streamp) (state : Z) : C unit := λ w,
  if decide (state ∈ allocations w)
  then Some (tt, {| memory := delete state (memory w);
                    allocations := allocations w ∖ {[state]};
                    io := io w |})
  else None.

Definition reset_state (strm : z_streamp) (wrap bits : Z) : C unit :=
  store_byte (ptr_cast Bytef strm) 0 (Fixture.low_byte bits).

Definition platform : Inflate.platform :=
  {| Inflate.open_state := open_state;
     Inflate.drop_state := drop_state;
     Inflate.reset_state := reset_state |}.

(** The shim built against the header of the library it runs with. *)
Definition zlib : Zlib :=
  linked "1.2.11" 112 (Inflate.library platform "1.2.11" 112).

End Rig.

(** ** Laws of the computation monad *)

Lemma bind_mret_r {A} (m : C A) (w : world) : (x ← m; mret x) w = m w.
Proof.
  unfold mbind, C_bind, mret, C_ret.
  destruct (m w) as [[a w']|]; reflexivity.
Qed.

Lemma bind_run {A B} (m : C A) (k : A → C B) (w w' : world) (a : A) :
  m w = Some (a, w') → (m ≫= k) w = k a w'.
Proof. unfold mbind, C_bind. intros ->. reflexivity. Qed.

Lemma bind_ext_l {A B} (m1 m2 : C A) (k : A → C B) (w : world) :
  m1 w = m2 w → (m1 ≫= k) w = (m2 ≫= k) w.
Proof. unfold mbind, C_bind. intros ->. reflexivity. Qed.

Lemma bind_ext_r {A B} (m : C A) (k1 k2 : A → C B) (w : world) :
  (∀ a w', k1 a w' = k2 a w') → (m ≫= k1) w = (m ≫= k2) w.
Proof.
  unfold mbind, C_bind. intros Hk.
  destruct (m w) as [[a w']|]; [apply Hk | reflexivity].
Qed.

(** ** The forwarding call *)

Section Forwarding.
Context `{Zlib}.

(** The one fact about the body of [CZlib_inflateInit2]: running it is
    running the expansion of the macro. *)
Lemma CZlib_inflateInit2_run strm windowBits w :
  CZlib_inflateInit2 strm windowBits w =
  inflateInit2_ strm windowBits ZLIB_VERSION (int_cast sizeof_z_stream) w.
Proof. unfold CZlib_inflateInit2, inflateInit2. apply bind_mret_r. Qed.

End Forwarding.

(** C1.  For every handle, every window-bit value and every world,
    calling [CZlib_inflateInit2] is calling zlib's [inflateInit2]
    directly with the same two arguments: the same status code and the
    same resulting world (or both are stuck), and the routine behind the
    macro receives [strm] and [windowBits] as the caller gave them. *)
Theorem CZlib_inflateInit2_refines `{Zlib} (strm : z_streamp) (windowBits : Z) (w : world) :
  CZlib_inflateInit2 strm windowBits w = inflateInit2 strm windowBits w ∧
  inflateInit2 strm windowBits w =
    inflateInit2_ strm windowBits ZLIB_VERSION (int_cast sizeof_z_stream) w.
Proof.
  split; [| reflexivity].
  rewrite CZlib_inflateInit2_run. reflexivity.
Qed.

(** C3, as the spec words it, with 0 and 100 as the values named as
    refused: on a handle zlib can use, each of them would give a status
    other than [Z_OK].  zlib accepts 0 (the window size is then taken
    from the stream's header), so the call with 0 returns [Z_OK]. *)
Lemma CZlib_inflateInit2_accepts_window_zero :
  ¬ (∀ windowBits, windowBits = 0 ∨ windowBits = 100 →
       ∃ e w', @CZlib_inflateInit2 Rig.zlib Fixture.handle windowBits Fixture.w0
               = Some (e, w') ∧ e ≠ Z_OK).
Proof.
  intros Hclaim.
  destruct (Hclaim 0 (or_introl eq_refl)) as (e & w' & Hrun & He).
  vm_compute in Hrun. injection Hrun as <- _. apply He. reflexivity.
Qed.

(** C3, amended.  For every window-bit value that zlib's check refuses
    (below -15, or with a size, after the sign or the +16/+32 offset is
    taken off, that is neither 0 nor in 8..15: 100 for one), whatever the
    handle and the header, [CZlib_inflateInit2] does what the library
    does and nothing of its own: a version error if the header does not
    suit the library, a stream error for a null handle, a memory error if
    the state could not be allocated, and otherwise a stream error after
    the state is given back.  So a call that returns returns a status
    other than [Z_OK], the library's own, and the call returns wherever
    zlib's own steps on the handle and the heap do. *)
Theorem CZlib_inflateInit2_refused_window (P : Inflate.platform)
    (rt_version version : string) (rt_size size : Z)
    (strm : z_streamp) (windowBits : Z) (w : world) :
  Inflate.window_bits windowBits = None →
  let zlib := linked version size (Inflate.library P rt_version rt_size) in
  @CZlib_inflateInit2 zlib strm windowBits w =
    (if Inflate.version_check rt_version rt_size version (int_cast size)
     then if address strm =? 0 then Some (Z_STREAM_ERROR, w)
          else match Inflate.open_state P strm w with
               | Some (state, w1) =>
                   if state =? 0 then Some (Z_MEM_ERROR, w1)
                   else match Inflate.drop_state P strm state w1 with
                        | Some (_, w2) => Some (Z_STREAM_ERROR, w2)
                        | None => None
                        end
               | None => None
               end
     else Some (Z_VERSION_ERROR, w)) ∧
  (∀ e w', @CZlib_inflateInit2 zlib strm windowBits w = Some (e, w') →
           e ≠ Z_OK ∧ @inflateInit2 zlib strm windowBits w = Some (e, w')) ∧
  (∀ state w1, Inflate.open_state P strm w = Some (state, w1) →
               state = 0 ∨ is_Some (Inflate.drop_state P strm state w1) →
               is_Some (@CZlib_inflateInit2 zlib strm windowBits w)).
Proof.
  intros Hwin zlib.
  assert (Hrun : @CZlib_inflateInit2 zlib strm windowBits w =
    (if Inflate.version_check rt_version rt_size version (int_cast size)
     then if address strm =? 0 then Some (Z_STREAM_ERROR, w)
          else match Inflate.open_state P strm w with
               | Some (state, w1) =>
                   if state =? 0 then Some (Z_MEM_ERROR, w1)
                   else match Inflate.drop_state P strm state w1 with
                        | Some (_, w2) => Some (Z_STREAM_ERROR, w2)
                        | None => None
                        end
               | None => None
               end
     else Some (Z_VERSION_ERROR, w))).
  { rewrite CZlib_inflateInit2_run. subst zlib. simpl.
    unfold runtime_inflateInit2_. simpl.
    destruct (Inflate.version_check rt_version rt_size version (int_cast size));
      [| reflexivity].
    unfold Inflate.init. rewrite Hwin.
    destruct (address strm =? 0); [reflexivity |].
    unfold mbind, C_bind.
    destruct (Inflate.open_state P strm w) as [[state w1]|]; [| reflexivity].
    destruct (state =? 0); [reflexivity |].
    destruct (Inflate.drop_state P strm state w1) as [[[] w2]|]; reflexivity. }
  split; [exact Hrun |]. split.
  - intros e w' He. split.
    + rewrite Hrun in He.
      repeat match type of He with
             | context [if ?c then _ else _] => destruct c
             | context [match ?o with Some _ => _ | None => _ end] =>
                 destruct o as [[? ?]|]
             end;
        try discriminate; injection He as <- _; discriminate.
    + rewrite <- He. symmetry. apply (@CZlib_inflateInit2_run zlib).
  - intros state w1 Hopen Hdrop. rewrite Hrun, Hopen.
    destruct (Inflate.version_check rt_version rt_size version (int_cast size));
      [| eexists; reflexivity].
    destruct (address strm =? 0); [eexists; reflexivity |].
    destruct (state =? 0) eqn:Hst; [eexists; reflexivity |].
    destruct Hdrop as [-> | [[[] w2] ->]]; [discriminate | eexists; reflexivity].
Qed.

Lemma CZlib_inflateInit2_refused_window_witness :
  ∃ w', @CZlib_inflateInit2 Rig.zlib Fixture.handle 100 Fixture.w0
        = Some (Z_STREAM_ERROR, w') ∧ Z_STREAM_ERROR ≠ Z_OK.
Proof.
  assert (Hwin : Inflate.window_bits 100 = None) by (vm_compute; reflexivity).
  destruct (CZlib_inflateInit2_refused_window Rig.platform
              "1.2.11" "1.2.11" 112 112 Fixture.handle 100 Fixture.w0 Hwin)
    as (Hrun & Hret & _).
  vm_compute in Hrun.
  eexists. split; [exact Hrun |].
  exact (proj1 (Hret _ _ Hrun)).
Defined.

(** C5, as the spec words it: whatever a call changes lies in the
    handle.  zlib's routine also takes a heap block for its own state, so
    after a successful call the live allocations are not what they
    were. *)
Lemma CZlib_inflateInit2_mutates_heap :
  ¬ (∀ strm windowBits w r w',
       @CZlib_inflateInit2 Rig.zlib strm windowBits w = Some (r, w') →
       only_handle_mutated strm 112 w w').
Proof.
  intros Hclaim.
  destruct (@CZlib_inflateInit2 Rig.zlib Fixture.handle 15 Fixture.w0)
    as [[r w']|] eqn:Hrun.
  - destruct (Hclaim _ _ _ _ _ Hrun) as (_ & Halloc & _).
    vm_compute in Hrun. injection Hrun as _ <-.
    vm_compute in Halloc. discriminate.
  - vm_compute in Hrun. discriminate.
Qed.

(** C5, amended.  A call of [CZlib_inflateInit2] changes exactly what
    zlib's routine changes, the handle in place and whatever else the
    routine touches: the memory, the live allocations and the I/O after
    the call are those the routine leaves, and the call is stuck exactly
    where the routine is.  The shim adds no write, no allocation and no
    I/O and keeps nothing of its arguments: whatever can be observed of
    the world and is left alone by the routine is left alone by the
    call. *)
Theorem CZlib_inflateInit2_effects `{Zlib} (strm : z_streamp) (windowBits : Z)
    (w : world) :
  match CZlib_inflateInit2 strm windowBits w,
        inflateInit2_ strm windowBits ZLIB_VERSION (int_cast sizeof_z_stream) w with
  | Some (_, w1), Some (_, w2) =>
      memory w1 = memory w2 ∧ allocations w1 = allocations w2 ∧ io w1 = io w2
  | None, None => True
  | _, _ => False
  end ∧
  ∀ (X : Type) (obs : world → X),
    (∀ r w', inflateInit2 strm windowBits w = Some (r, w') → obs w' = obs w) →
    match CZlib_inflateInit2 strm windowBits w with
    | Some (_, w') => obs w' = obs w
    | None => inflateInit2 strm windowBits w = None
    end.
Proof.
  rewrite CZlib_inflateInit2_run.
  fold (inflateInit2 strm windowBits).
  destruct (inflateInit2 strm windowBits w) as [[r w']|] eqn:Hrun.
  - split; [auto |]. intros X obs Hlib. apply (Hlib r w'). reflexivity.
  - split; [exact I |]. intros X obs _. reflexivity.
Qed.

Lemma CZlib_inflateInit2_effects_witness :
  match @CZlib_inflateInit2 Rig.zlib Fixture.handle 15 Fixture.w0 with
  | Some (_, w') =>
      (io w', memory w' !! 8192) = (io Fixture.w0, memory Fixture.w0 !! 8192)
  | None => @inflateInit2 Rig.zlib Fixture.handle 15 Fixture.w0 = None
  end.
Proof.
  apply (proj2 (@CZlib_inflateInit2_effects Rig.zlib Fixture.handle 15 Fixture.w0)
           _ (λ w, (io w, memory w !! 8192))).
  intros r w' Hrun. vm_compute in Hrun.
  injection Hrun as _ <-. vm_compute. reflexivity.
Defined.

(** C6.  Initialising the same handle twice through [CZlib_inflateInit2],
    first with [w1] and then with [w2], gives the statuses and the final
    world of two direct calls of zlib's [inflateInit2]: the second call
    starts from exactly the world the library left after the first, so
    nothing is carried over by the shim. *)
Theorem CZlib_inflateInit2_twice `{Zlib} (strm : z_streamp) (w1 w2 : Z) (w : world) :
  init_twice CZlib_inflateInit2 strm w1 w2 w = init_twice inflateInit2 strm w1 w2 w ∧
  init_twice CZlib_inflateInit2 strm w1 w2 w =
    match inflateInit2 strm w1 w with
    | Some (r1, wa) =>
        match inflateInit2 strm w2 wa with
        | Some (r2, wb) => Some ((r1, r2), wb)
        | None => None
        end
    | None => None
    end.
Proof.
  assert (Heq : init_twice CZlib_inflateInit2 strm w1 w2 w
                = init_twice inflateInit2 strm w1 w2 w).
  { unfold init_twice.
    rewrite (bind_ext_l (CZlib_inflateInit2 strm w1) (inflateInit2 strm w1))
      by apply CZlib_inflateInit2_run.
    apply bind_ext_r. intros r1 wa.
    apply bind_ext_l, CZlib_inflateInit2_run. }
  split; [exact Heq |].
  rewrite Heq. unfold init_twice, mbind, C_bind, mret, C_ret.
  destruct (inflateInit2 strm w1 w) as [[r1 wa]|]; [| reflexivity].
  destruct (inflateInit2 strm w2 wa) as [[r2 wb]|]; reflexivity.
Qed.

(** C8.  The version string and structure size that reach the library's
    compatibility check are the constants of the header the shim was
    compiled against, whatever [strm] and [windowBits] the caller passes:
    when the library at run time does not accept them, every call returns
    [Z_VERSION_ERROR], a status other than [Z_OK], and leaves the world,
    the handle included, as it was; otherwise the call is the library's
    initialisation. *)
Theorem CZlib_inflateInit2_version_check (version : string) (size : Z)
    (R : runtime) (strm : z_streamp) (windowBits : Z) (w : world) :
  @CZlib_inflateInit2 (linked version size R) strm windowBits w =
    (if compatible R version (int_cast size)
     then initialise R strm windowBits w
     else Some (Z_VERSION_ERROR, w)) ∧
  Z_VERSION_ERROR ≠ Z_OK.
Proof.
  split; [| discriminate].
  rewrite CZlib_inflateInit2_run. simpl. unfold runtime_inflateInit2_.
  destruct (compatible R version (int_cast size)); reflexivity.
Qed.

(** ** The pointer reinterpretation *)

Lemma poke_lookup_below (a : Z) (bs : list byte) (m : gmap Z byte) (k : Z) :
  k < a → poke a bs m !! k = m !! k.
Proof.
  revert a m. induction bs as [|b bs IH]; intros a m Hk; simpl; [reflexivity |].
  rewrite IH by lia. apply lookup_insert_ne. lia.
Qed.

Lemma poke_lookup (a : Z) (bs : list byte) (m : gmap Z byte) (n : nat) (b : byte) :
  bs !! n = Some b → poke a bs m !! (a + Z.of_nat n) = Some b.
Proof.
  revert a m n. induction bs as [|b0 bs IH]; intros a m [|n] Hn;
    try discriminate; cbn [poke].
  - injection Hn as ->. rewrite Z.add_0_r, poke_lookup_below by lia.
    apply lookup_insert_eq.
  - rewrite Nat2Z.inj_succ.
    replace (a + Z.succ (Z.of_nat n)) with (a + 1 + Z.of_nat n) by lia.
    apply IH. exact Hn.
Qed.

Lemma set_memory_id (w : world) : set_memory (λ m, m) w = w.
Proof. destruct w; reflexivity. Qed.

Lemma write_bytes_poke (p : ptr Bytef) (i : Z) (bs : list byte) (w : world) :
  Forall (λ k, is_Some (memory w !! (address p + k))) (seqZ i (Z.of_nat (length bs))) →
  write_bytes p i bs w = Some (tt, set_memory (poke (address p + i) bs) w).
Proof.
  revert i w. induction bs as [|b bs IH]; intros i w Hcells.
  - simpl. unfold mret, C_ret. rewrite set_memory_id. reflexivity.
  - cbn [length] in Hcells. rewrite Nat2Z.inj_succ, seqZ_cons in Hcells by lia.
    apply Forall_cons in Hcells as [[b0 Hcell] Hrest].
    rewrite Z.pred_succ in Hrest.
    cbn [write_bytes].
    rewrite (bind_run _ _ w (set_memory <[address p + i := b]> w) tt)
      by (unfold store_byte; rewrite Hcell; reflexivity).
    rewrite IH.
    + simpl. rewrite Z.add_assoc. destruct w; reflexivity.
    + eapply Forall_impl; [exact Hrest |].
      intros k Hk. simpl. apply lookup_insert_is_Some'. right. exact Hk.
Qed.

Lemma read_bytes_lookup (b : ptr void) (i : Z) (bs : list byte) (w : world) :
  (∀ n x, bs !! n = Some x → memory w !! (address b + i + Z.of_nat n) = Some x) →
  read_bytes b i (length bs) w = Some (bs, w).
Proof.
  revert i. induction bs as [|x bs IH]; intros i Hmem; [reflexivity |].
  cbn [length read_bytes].
  rewrite (bind_run _ _ w w x).
  - rewrite (bind_run _ _ w w bs); [reflexivity |].
    apply IH. intros n y Hn.
    replace (address b + (i + 1) + Z.of_nat n)
      with (address b + i + Z.of_nat (S n)) by lia.
    apply Hmem. exact Hn.
  - unfold load_byte. specialize (Hmem 0%nat x eq_refl).
    rewrite Z.add_0_r in Hmem. rewrite Hmem. reflexivity.
Qed.

(** C2.  For every pointer [p], in every world, [CZlib_voidPtr_to_BytefPtr]
    returns the byte pointer with the address of [p]: it succeeds whether
    or not [p] is null or points to an existing cell (no null check, no
    bounds check), the address is not changed, and the world is the one it
    started in (nothing is copied). *)
Theorem CZlib_voidPtr_to_BytefPtr_same_address (p : ptr void) (w : world) :
  CZlib_voidPtr_to_BytefPtr p w = Some (Ptr Bytef (address p), w).
Proof. reflexivity. Qed.

(** C4.  For every buffer [b] of [len] bytes and every [N = length bs]
    bytes with [N ≤ len], writing [bs] through the pointer that
    [CZlib_voidPtr_to_BytefPtr b] returns and reading [N] bytes back
    through [b] itself gives [bs] again; the reinterpretation alone leaves
    the world untouched. *)
Theorem CZlib_voidPtr_to_BytefPtr_roundtrip (b : ptr void) (len : Z)
    (bs : list byte) (w : world) :
  buffer b len w →
  Z.of_nat (length bs) ≤ len →
  (∃ w', write_then_read b bs w = Some (bs, w')) ∧
  snd <$> CZlib_voidPtr_to_BytefPtr b w = Some w.
Proof.
  intros Hbuf Hlen. split; [| reflexivity].
  unfold write_then_read.
  rewrite (bind_run _ _ w w (Ptr Bytef (address b))) by reflexivity.
  assert (Hcells : Forall (λ k, is_Some (memory w !! (address b + k)))
                     (seqZ 0 (Z.of_nat (length bs)))).
  { unfold buffer in Hbuf. rewrite Forall_forall in Hbuf |- *.
    intros k Hk. apply Hbuf. rewrite elem_of_seqZ in Hk |- *. lia. }
  rewrite (bind_run _ _ w (set_memory (poke (address b + 0) bs) w) tt)
    by (apply (write_bytes_poke (Ptr Bytef (address b)) 0 bs w), Hcells).
  eexists. apply read_bytes_lookup.
  intros n x Hn. simpl. apply poke_lookup, Hn.
Qed.

Lemma CZlib_voidPtr_to_BytefPtr_roundtrip_witness :
  (∃ w', write_then_read Fixture.buf ["z"; "l"; "i"]%byte Fixture.w0
         = Some (["z"; "l"; "i"]%byte, w')) ∧
  snd <$> CZlib_voidPtr_to_BytefPtr Fixture.buf Fixture.w0 = Some Fixture.w0.
Proof.
  apply (CZlib_voidPtr_to_BytefPtr_roundtrip Fixture.buf 4).
  - apply (bool_decide_unpack _). vm_compute. reflexivity.
  - simpl. lia.
Defined.

(** C9.  [CZlib_voidPtr_to_BytefPtr] returns for every pointer in every
    world, the null pointer included, and never gets stuck; its result
    does not depend on the world; null is mapped to null; and pointers
    with the same image are the same pointer. *)
Theorem CZlib_voidPtr_to_BytefPtr_total_injective :
  (∀ p w, ∃ q, CZlib_voidPtr_to_BytefPtr p w = Some (q, w)) ∧
  (∀ p w1 w2, fst <$> CZlib_voidPtr_to_BytefPtr p w1
              = fst <$> CZlib_voidPtr_to_BytefPtr p w2) ∧
  (∀ w, CZlib_voidPtr_to_BytefPtr NULL w = Some (NULL, w)) ∧
  (∀ p1 p2 w1 w2, fst <$> CZlib_voidPtr_to_BytefPtr p1 w1
                  = fst <$> CZlib_voidPtr_to_BytefPtr p2 w2 → p1 = p2).
Proof.
  repeat split.
  - intros p w. eexists. reflexivity.
  - intros [a1] [a2] w1 w2 Heq. simpl in Heq.
    injection Heq as ->. reflexivity.
Qed.

(** ** Linkage of the entry points *)

(** C7, as the spec words it: [CZlib_inflateInit2] is an exported function
    that has an address, while [inflateInit2] has none.  The header
    defines the function [static inline], so the statement fails on its
    first part. *)
Lemma CZlib_inflateInit2_not_exported :
  ¬ (Linkage.exported Linkage.CZlib_inflateInit2_decl = true ∧
     Linkage.has_address Linkage.CZlib_inflateInit2_decl = true ∧
     Linkage.has_address Linkage.inflateInit2_decl = false).
Proof. intros [Hexp _]. vm_compute in Hexp. discriminate. Qed.

(** C7, amended.  [CZlib_inflateInit2] is a function definition, so it
    has an address and can be called, where the macro [inflateInit2] has
    none; being [static inline] it has internal linkage, and what a
    binding layer gets is the definition in the header, not a symbol. *)
Theorem CZlib_inflateInit2_addressable :
  Linkage.has_address Linkage.CZlib_inflateInit2_decl = true ∧
  Linkage.linkage_of Linkage.CZlib_inflateInit2_decl = Some Linkage.Internal ∧
  Linkage.has_address Linkage.inflateInit2_decl = false ∧
  Linkage.linkage_of Linkage.inflateInit2_decl = None.
Proof. repeat split. Qed.

(** ** The definitions at work on the stand-in library *)

Example accepted_window_initialises :
  fst <$> @CZlib_inflateInit2 Fixture.zlib Fixture.handle 47 Fixture.w0 = Some Z_OK.
Proof. vm_compute. reflexivity. Qed.

Example stale_header_is_refused :
  @CZlib_inflateInit2 Fixture.stale_zlib Fixture.handle 47 Fixture.w0
  = Some (Z_VERSION_ERROR, Fixture.w0).
Proof. vm_compute. reflexivity. Qed.

Example dangling_handle_is_stuck :
  @CZlib_inflateInit2 Fixture.zlib (Ptr z_stream 12) 15 Fixture.w0 = None.
Proof. vm_compute. reflexivity. Qed.

Example second_initialisation_overwrites :
  (λ r, (r.1, memory r.2 !! 4096)) <$>
    init_twice (@CZlib_inflateInit2 Fixture.zlib) Fixture.handle 15 (-9) Fixture.w0
  = Some ((Z_OK, Z_OK), Some (Fixture.low_byte (-9))).
Proof. vm_compute. reflexivity. Qed.

Example null_is_reinterpreted :
  CZlib_voidPtr_to_BytefPtr NULL Fixture.w0 = Some (NULL, Fixture.w0).
Proof. reflexivity. Qed.

Example write_past_the_buffer_is_stuck :
  write_then_read Fixture.buf ["i"; "n"; "f"; "l"; "a"]%byte Fixture.w0 = None.
Proof. vm_compute. reflexivity. Qed.

(** ** Writes through the reinterpreted pointer, cell by cell *)

Lemma poke_lookup_above (a : Z) (bs : list byte) (m : gmap Z byte) (k : Z) :
  a + Z.of_nat (length bs) ≤ k → poke a bs m !! k = m !! k.
Proof.
  revert a m. induction bs as [|b bs IH]; intros a m Hk; [reflexivity |].
  cbn [poke]. cbn [length] in Hk. rewrite Nat2Z.inj_succ in Hk.
  rewrite IH by lia. apply lookup_insert_ne. lia.
Qed.

Lemma poke_dom (a : Z) (bs : list byte) (m : gmap Z byte) :
  Forall (λ k, is_Some (m !! k)) (seqZ a (Z.of_nat (length bs))) →
  dom (poke a bs m) = dom m.
Proof.
  revert a m. induction bs as [|b bs IH]; intros a m Hcells; [reflexivity |].
  cbn [length] in Hcells. rewrite Nat2Z.inj_succ, seqZ_cons in Hcells by lia.
  apply Forall_cons in Hcells as [Hcell Hrest].
  rewrite Z.pred_succ in Hrest. cbn [poke].
  rewrite IH.
  - apply dom_insert_lookup_L, Hcell.
  - rewrite <- Z.add_1_r in Hrest.
    eapply Forall_impl; [exact Hrest |].
    intros k Hk. simpl. apply lookup_insert_is_Some'. right. exact Hk.
Qed.

Lemma buffer_range (b : ptr void) (len i n : Z) (w : world) :
  buffer b len w → 0 ≤ i → i + n ≤ len →
  Forall (λ k, is_Some (memory w !! (address b + k))) (seqZ i n).
Proof.
  unfold buffer. rewrite !Forall_forall. intros Hbuf Hi Hn k Hk.
  apply Hbuf. rewrite elem_of_seqZ in Hk |- *. lia.
Qed.

Lemma write_at_run (b : ptr void) (len i : Z) (bs : list byte) (w : world) :
  buffer b len w → 0 ≤ i → i + Z.of_nat (length bs) ≤ len →
  write_at b i bs w = Some (tt, set_memory (poke (address b + i) bs) w).
Proof.
  intros Hbuf Hi Hn. unfold write_at.
  rewrite (bind_run _ _ w w (Ptr Bytef (address b))) by reflexivity.
  apply (write_bytes_poke (Ptr Bytef (address b)) i bs w).
  eapply buffer_range; eassumption.
Qed.

(** X1.  Inside a buffer [b] of [len] bytes, writing [bs] from offset [i]
    through the pointer [CZlib_voidPtr_to_BytefPtr b] returns is defined
    and touches the cells [address b + i .. address b + i + length bs - 1]
    only: every other cell keeps its content, no cell appears or
    disappears, every buffer that was valid stays valid, and the live
    allocations and the I/O done are as before. *)
Theorem write_at_frame (b : ptr void) (len i : Z) (bs : list byte) (w : world) :
  buffer b len w →
  0 ≤ i →
  i + Z.of_nat (length bs) ≤ len →
  ∃ w', write_at b i bs w = Some (tt, w') ∧
        (∀ a, a < address b + i ∨ address b + i + Z.of_nat (length bs) ≤ a →
              memory w' !! a = memory w !! a) ∧
        dom (memory w') = dom (memory w) ∧
        (∀ b' len', buffer b' len' w → buffer b' len' w') ∧
        allocations w' = allocations w ∧
        io w' = io w.
Proof.
  intros Hbuf Hi Hn. eexists. split; [eapply write_at_run; eassumption |].
  assert (Hdom : dom (poke (address b + i) bs (memory w)) = dom (memory w)).
  { apply poke_dom.
    pose proof (buffer_range b len i _ w Hbuf Hi Hn) as Hcells.
    rewrite Forall_forall in Hcells |- *. intros k Hk.
    rewrite elem_of_seqZ in Hk.
    replace k with (address b + (k - address b)) by lia.
    apply Hcells. rewrite elem_of_seqZ. lia. }
  simpl. repeat split; [| exact Hdom |].
  - intros a [Hlo | Hhi].
    + apply poke_lookup_below, Hlo.
    + apply poke_lookup_above, Hhi.
  - intros b' len'. unfold buffer. rewrite !Forall_forall.
    intros Hvalid k Hk. simpl.
    apply elem_of_dom. rewrite Hdom. apply elem_of_dom, Hvalid, Hk.
Qed.

Lemma write_at_frame_witness :
  ∃ w', write_at Fixture.buf 1 ["o"; "k"]%byte Fixture.w0 = Some (tt, w') ∧
        (∀ a, a < address Fixture.buf + 1 ∨ address Fixture.buf + 1 + 2 ≤ a →
              memory w' !! a = memory Fixture.w0 !! a) ∧
        dom (memory w') = dom (memory Fixture.w0) ∧
        (∀ b' len', buffer b' len' Fixture.w0 → buffer b' len' w') ∧
        allocations w' = allocations Fixture.w0 ∧
        io w' = io Fixture.w0.
Proof.
  apply (write_at_frame Fixture.buf 4 1 ["o"; "k"]%byte Fixture.w0).
  - apply (bool_decide_unpack _). vm_compute. reflexivity.
  - lia.
  - simpl. lia.
Defined.

(** X2.  Inside a buffer [b] of [len] bytes, the bytes written from
    offset [i] through the reinterpreted pointer are the bytes read from
    offset [i] of [b] itself: the byte pointer and the untyped reference
    count offsets from the same address. *)
Theorem write_at_read_back (b : ptr void) (len i : Z) (bs : list byte) (w : world) :
  buffer b len w →
  0 ≤ i →
  i + Z.of_nat (length bs) ≤ len →
  ∃ w', (write_at b i bs;; read_bytes b i (length bs)) w = Some (bs, w').
Proof.
  intros Hbuf Hi Hn. eexists.
  rewrite (bind_run _ _ w (set_memory (poke (address b + i) bs) w) tt)
    by (eapply write_at_run; eassumption).
  apply read_bytes_lookup.
  intros n x Hx. simpl. apply poke_lookup, Hx.
Qed.

Lemma write_at_read_back_witness :
  ∃ w', (write_at Fixture.buf 2 ["o"; "k"]%byte;;
         read_bytes Fixture.buf 2 (length ["o"; "k"]%byte)) Fixture.w0
        = Some (["o"; "k"]%byte, w').
Proof.
  apply (write_at_read_back Fixture.buf 4 2 ["o"; "k"]%byte Fixture.w0).
  - apply (bool_decide_unpack _). vm_compute. reflexivity.
  - lia.
  - simpl. lia.
Defined.

(** X3.  Any run of initialisations through [CZlib_inflateInit2], on any
    handles with any window-bit values, gives the list of statuses and the
    final world of the same run of direct [inflateInit2] calls, and is
    stuck exactly where that run is. *)
Theorem CZlib_inflateInit2_each `{Zlib} (calls : list (z_streamp * Z)) (w : world) :
  init_each CZlib_inflateInit2 calls w = init_each inflateInit2 calls w.
Proof.
  revert w. induction calls as [|[strm windowBits] rest IH]; intros w;
    [reflexivity |].
  cbn [init_each].
  rewrite (bind_ext_l (CZlib_inflateInit2 strm windowBits)
             (inflateInit2 strm windowBits))
    by apply CZlib_inflateInit2_run.
  apply bind_ext_r. intros r wa.
  apply bind_ext_l, IH.
Qed.

(** X4.  Whatever property of the world every call of the library's
    routine preserves is preserved by a whole run of initialisations
    through [CZlib_inflateInit2]; a run that returns hands back one status
    per call, and a run is stuck only where the run of direct calls is. *)
Theorem CZlib_inflateInit2_each_invariant `{Zlib} (I : world → Prop)
    (calls : list (z_streamp * Z)) (w : world) :
  (∀ strm windowBits w0 r w1,
     inflateInit2 strm windowBits w0 = Some (r, w1) → I w0 → I w1) →
  I w →
  match init_each CZlib_inflateInit2 calls w with
  | Some (rs, w') => I w' ∧ length rs = length calls
  | None => init_each inflateInit2 calls w = None
  end.
Proof.
  intros Hstep. revert w.
  induction calls as [|[strm windowBits] rest IH]; intros w Hw.
  - simpl. split; [exact Hw | reflexivity].
  - cbn [init_each]. unfold mbind, C_bind.
    rewrite CZlib_inflateInit2_run. fold (inflateInit2 strm windowBits).
    destruct (inflateInit2 strm windowBits w) as [[r wa]|] eqn:Hrun;
      [| reflexivity].
    specialize (IH wa (Hstep _ _ _ _ _ Hrun Hw)).
    destruct (init_each CZlib_inflateInit2 rest wa) as [[rs wb]|].
    + destruct IH as [Hwb Hlen]. simpl. split; [exact Hwb | now rewrite Hlen].
    + rewrite IH. reflexivity.
Qed.

Lemma CZlib_inflateInit2_each_invariant_witness :
  match init_each (@CZlib_inflateInit2 Fixture.zlib)
          [(Fixture.handle, 15); (Fixture.handle, 100); (Fixture.handle, -15)]
          Fixture.w0 with
  | Some (rs, w') => io w' = [] ∧ length rs = 3%nat
  | None => init_each (@inflateInit2 Fixture.zlib)
              [(Fixture.handle, 15); (Fixture.handle, 100); (Fixture.handle, -15)]
              Fixture.w0 = None
  end.
Proof.
  apply (@CZlib_inflateInit2_each_invariant Fixture.zlib (λ w, io w = [])).
  - intros strm windowBits w0 r w1 Hrun Hio.
    change (Fixture.init strm windowBits w0 = Some (r, w1)) in Hrun.
    unfold Fixture.init in Hrun.
    destruct (decide (address strm = 0));
      [injection Hrun as _ <-; exact Hio |].
    destruct (memory w0 !! address strm); [| discriminate].
    destruct (Fixture.window_suits windowBits);
      injection Hrun as _ <-; exact Hio.
  - reflexivity.
Defined.


(** ** zlib's window check on the values the spec names *)

Example spec_windows_are_accepted :
  Inflate.window_bits <$> [15; -15; 31; 47]
  = [Some (5, 15); Some (0, 15); Some (6, 15); Some (7, 15)].
Proof. vm_compute. reflexivity. Qed.

Example header_sized_windows_are_accepted :
  Inflate.window_bits <$> [0; 16; 32] = [Some (5, 0); Some (6, 0); Some (7, 0)].
Proof. vm_compute. reflexivity. Qed.

Example odd_windows_are_refused :
  Inflate.window_bits <$> [100; 48; 7; 17; -7; -16] = [None; None; None; None; None; None].
Proof. vm_compute. reflexivity. Qed.
